(** * Finance KG MCP server: the entity-resolution tools

    A shallow embedding of [finance_MCP.py].  The tool functions of that
    module are embedded one by one, under the names the Python source gives
    them, and the properties of the resolution layer are proved about
    them.

    Conventions of the embedding.
    - A Python [str] is a [string].  Characters are the 7-bit ASCII code
      points; [upper], [lower] and [strip] act on them as Python's [str]
      methods do on ASCII text.  Codes 128 and above are carried through
      every operation unchanged: case mapping and white space of
      non-ASCII text are outside the embedding, and a property that
      rests on case folding is stated for ASCII strings ([isascii]).
    - [kg.name_dict] is a Python [dict]: its items in iteration
      (insertion) order, as an association list.
    - The local [symbol_to_name] is only ever probed by key, so it is a
      [gmap string string].
    - A tool runs against the module-level object [kg]; it is a function
      from the object to an outcome and the object afterwards, and an
      outcome is either a returned value or a raised exception. *)

From stdpp Require Import gmap strings list.
From Stdlib Require Import Ascii NArith.

(** ** Python's [str] methods used by the module *)

Module PyStr.

Local Open Scope N_scope.

(** [c.isspace()] on ASCII: TAB, LF, VT, FF, CR, the four separators
    FS, GS, RS, US, and the space. *)
Definition isspace (c : ascii) : bool :=
  let n := N_of_ascii c in
  ((9 <=? n) && (n <=? 13)) || ((28 <=? n) && (n <=? 32)).

Definition upper_char (c : ascii) : ascii :=
  let n := N_of_ascii c in
  if (97 <=? n) && (n <=? 122) then ascii_of_N (n - 32) else c.

Definition lower_char (c : ascii) : ascii :=
  let n := N_of_ascii c in
  if (65 <=? n) && (n <=? 90) then ascii_of_N (n + 32) else c.

Fixpoint map (f : ascii -> ascii) (s : string) : string :=
  match s with
  | EmptyString => EmptyString
  | String c r => String (f c) (map f r)
  end.

(** [s.upper()] and [s.lower()]. *)
Definition upper (s : string) : string := map upper_char s.
Definition lower (s : string) : string := map lower_char s.

(** [s.lstrip()], [s.rstrip()] and [s.strip()], without argument. *)
Fixpoint lstrip (s : string) : string :=
  match s with
  | EmptyString => EmptyString
  | String c r => if isspace c then lstrip r else s
  end.

Fixpoint rstrip (s : string) : string :=
  match s with
  | EmptyString => EmptyString
  | String c r =>
      match rstrip r with
      | EmptyString => if isspace c then EmptyString else String c EmptyString
      | r' => String c r'
      end
  end.

Definition strip (s : string) : string := rstrip (lstrip s).

End PyStr.

Import PyStr.

(** The double quote and the line feed of the f-strings. *)
Definition dquote : string := String (ascii_of_N 34) EmptyString.
Definition newline : string := String (ascii_of_N 10) EmptyString.

(** ** Python's [dict], as far as the module uses it *)

(** The items of a [dict] of strings, in iteration order. *)
Definition dict : Type := list (string * string).

(** The keys of a Python [dict] are pairwise distinct. *)
Definition dict_wf (d : dict) : Prop := NoDup d.*1.

Fixpoint dict_get (d : dict) (key : string) : option string :=
  match d with
  | [] => None
  | (k, v) :: r => if decide (k = key) then Some v else dict_get r key
  end.

(** ** Outcomes and the module-level object [kg] *)

Inductive exn : Type :=
| KeyError (key : string)
| NotFoundError (name : string).

Inductive outcome (A : Type) : Type :=
| Returned (a : A)
| Raised (e : exn).
Arguments Returned {A} a.
Arguments Raised {A} e.

(** The part of the [FinanceKG] object that the module reads itself. *)
Record FinanceKG : Type := { name_dict : dict }.

(** A tool call: it runs against [kg] and leaves an outcome and [kg]. *)
Definition tool (A : Type) : Type := FinanceKG -> outcome A * FinanceKG.

#[global] Instance tool_ret : MRet tool :=
  fun A a kg => (Returned a, kg).

#[global] Instance tool_bind : MBind tool :=
  fun A B f c kg =>
    match c kg with
    | (Returned a, kg') => f a kg'
    | (Raised e, kg') => (Raised e, kg')
    end.

Definition raise {A : Type} (e : exn) : tool A :=
  fun kg => (Raised e, kg).

(** The attribute read [kg.name_dict]. *)
Definition kg_name_dict : tool dict :=
  fun kg => (Returned (name_dict kg), kg).

(** The subscriptions [d[key]], which raise [KeyError] on a miss. *)
Definition dict_getitem (d : dict) (key : string) : tool string :=
  match dict_get d key with
  | Some v => mret v
  | None => raise (KeyError key)
  end.

Definition map_getitem (m : gmap string string) (key : string) : tool string :=
  match m !! key with
  | Some v => mret v
  | None => raise (KeyError key)
  end.

(** ** [match_ticker_or_name] *)

(** The three f-strings the tool returns. *)
Definition ticker_message (query company_name symbol : string) : string :=
  dquote +:+ query +:+ dquote +:+ " is recognized as a ticker symbol."
    +:+ newline +:+ "Company Name: " +:+ company_name
    +:+ newline +:+ "Ticker Symbol: " +:+ symbol.

Definition name_message (query company_name ticker : string) : string :=
  dquote +:+ query +:+ dquote +:+ " is recognized as a company name."
    +:+ newline +:+ "Company Name: " +:+ company_name
    +:+ newline +:+ "Ticker Symbol: " +:+ ticker.

Definition unrecognized_message (query : string) : string :=
  dquote +:+ query +:+ dquote
    +:+ " is not recognized as either a valid company name or ticker symbol in the Finance KG.".

(** [{v.upper(): k for k, v in name_to_symbol.items()}]: the items are
    visited in order and each one is stored under its uppercased value,
    replacing what an earlier item stored there. *)
Definition symbol_to_name (name_to_symbol : dict) : gmap string string :=
  foldl (fun m kv => <[upper kv.2 := kv.1]> m) ∅ name_to_symbol.

(** The name that the last item with uppercased value [symbol] carries:
    what the comprehension leaves under [symbol]. *)
Fixpoint last_name_of (d : dict) (symbol : string) : option string :=
  match d with
  | [] => None
  | (name, ticker) :: r =>
      match last_name_of r symbol with
      | Some later => Some later
      | None => if decide (upper ticker = symbol) then Some name else None
      end
  end.

(** The list the scan builds: the stored names that equal the query once
    both are lowercased, in iteration order. *)
Definition scan (d : dict) (query : string) : list string :=
  filter (fun name => lower name = lower query) d.*1.

Definition match_ticker_or_name (query : string) : tool string :=
  let query_norm := strip query in
  name_to_symbol ← kg_name_dict;
  let symbol_to_name := symbol_to_name name_to_symbol in
  if bool_decide (is_Some (symbol_to_name !! upper query_norm)) then
    company_name ← map_getitem symbol_to_name (upper query_norm);
    mret (ticker_message query company_name (upper query_norm))
  else
    let matches :=
      filter (fun name => lower name = lower query) name_to_symbol.*1 in
    match matches with
    | company_name :: _ =>
        ticker ← dict_getitem name_to_symbol company_name;
        mret (name_message query company_name ticker)
    | [] => mret (unrecognized_message query)
    end.


(** ** The tools that delegate to [kg] *)

(** The methods of [FinanceKG] that the tools call.  The class is
    imported from the module [finance]; a method receives its argument
    and runs against the object.  [payload] stands for the JSON values
    and floats the data source answers with. *)
Class FinanceKG_methods (payload : Type) : Type := {
  kg_get_company_name : string -> tool (list string);
  kg_get_price_history : string -> tool payload;
  kg_get_detailed_price_history : string -> tool payload;
  kg_get_dividends_history : string -> tool payload;
  kg_get_market_capitalization : string -> tool payload;
  kg_get_eps : string -> tool payload;
  kg_get_pe_ratio : string -> tool payload;
  kg_get_info : string -> tool payload
}.

(** Modelled from the spec: [FinanceKG.get_ticker_by_name], whose module
    [finance] is not part of the sources.  It looks [name] up as an exact
    key of the name index and signals [NotFoundError] when the key is
    absent. *)
Definition kg_get_ticker_by_name (name : string) : tool string :=
  name_to_symbol ← kg_name_dict;
  match dict_get name_to_symbol name with
  | Some ticker => mret ticker
  | None => raise (NotFoundError name)
  end.

(** The symbol form of the specification's Normalizer: trimmed, then
    uppercased, as [match_ticker_or_name] treats its query. *)
Definition to_symbol_form (s : string) : string := upper (strip s).

Section Tools.

Context {payload : Type} {methods : FinanceKG_methods payload}.

Definition get_company_name (query : string) : tool (list string) :=
  kg_get_company_name query.

Definition get_ticker_by_name (company_name : string) : tool string :=
  kg_get_ticker_by_name company_name.

Definition get_price_history (ticker_name : string) : tool payload :=
  kg_get_price_history ticker_name.

Definition get_detailed_price_history (ticker_name : string) : tool payload :=
  kg_get_detailed_price_history ticker_name.

Definition get_dividends_history (ticker_name : string) : tool payload :=
  kg_get_dividends_history ticker_name.

Definition get_market_capitalization (ticker_name : string) : tool payload :=
  kg_get_market_capitalization ticker_name.

Definition get_eps (ticker_name : string) : tool payload :=
  kg_get_eps ticker_name.

Definition get_pe_ratio (ticker_name : string) : tool payload :=
  kg_get_pe_ratio ticker_name.

Definition get_info (ticker_name : string) : tool payload :=
  kg_get_info ticker_name.

End Tools.

(** A data source that answers every request with the argument it was
    given, so that the argument a tool forwards can be read off the
    answer. *)
Definition echo_methods : FinanceKG_methods string := {|
  kg_get_company_name := fun query => mret [query];
  kg_get_price_history := fun ticker_name => mret ticker_name;
  kg_get_detailed_price_history := fun ticker_name => mret ticker_name;
  kg_get_dividends_history := fun ticker_name => mret ticker_name;
  kg_get_market_capitalization := fun ticker_name => mret ticker_name;
  kg_get_eps := fun ticker_name => mret ticker_name;
  kg_get_pe_ratio := fun ticker_name => mret ticker_name;
  kg_get_info := fun ticker_name => mret ticker_name
|}.

(** ** Example indexes *)

(** The index of the specification's scenarios. *)
Definition kg_example : FinanceKG :=
  {| name_dict := [("Tesla Inc. Common Stock", "TSLA");
                   ("Microsoft Corporation Common Stock", "MSFT")] |}.

(** A ticker stored with a trailing blank. *)
Definition kg_padded : FinanceKG :=
  {| name_dict := [("Tesla Inc. Common Stock", "TSLA ")] |}.

(** A ticker stored with a trailing blank, and another entity whose name
    is that ticker in lower case. *)
Definition kg_padded_pair : FinanceKG :=
  {| name_dict := [("Tesla Inc. Common Stock", "TSLA "); ("tsla ", "TSLQ")] |}.

(** An entity whose name is, in lower case, the ticker of another one. *)
Definition kg_collision : FinanceKG :=
  {| name_dict := [("Tesla Inc. Common Stock", "TSLA"); ("tsla", "TSLQ")] |}.

(** Two entities whose tickers agree once uppercased. *)
Definition kg_same_symbol : FinanceKG :=
  {| name_dict := [("Tesla Inc. Common Stock", "TSLA");
                   ("Microsoft Corporation Common Stock", "MSFT");
                   ("Tesla Duplicate", "tsla")] |}.

(** Two stored names that agree once lowercased. *)
Definition kg_case_duplicates : FinanceKG :=
  {| name_dict := [("Tesla", "TSLA"); ("TESLA", "TSLB")] |}.

(** An entity stored with an empty ticker. *)
Definition kg_empty_ticker : FinanceKG :=
  {| name_dict := [("Tesla Inc. Common Stock", "TSLA"); ("Delisted Corp", "")] |}.

(** ** The format resource *)

(** [sep.join(lines)]. *)
Fixpoint join (sep : string) (lines : list string) : string :=
  match lines with
  | [] => ""
  | [line] => line
  | line :: rest => line +:+ sep +:+ join sep rest
  end.

Definition get_company_format_examples : string :=
  join newline
    ["Applied Optoelectronics Inc. Common Stock,AAOI";
     "Airbnb Inc. Class A Common Stock,ABNB";
     "Tesla Inc. Common Stock,TSLA";
     "Microsoft Corporation Common Stock,MSFT";
     "Evolent Health Inc Class A Common Stock,EVH"].

(** ** Auxiliary notions for the statements *)

(** [s] consists of white space only (as the empty string does). *)
Fixpoint all_space (s : string) : bool :=
  match s with
  | EmptyString => true
  | String c r => isspace c && all_space r
  end.

(** [s.isascii()]: every character of [s] is a 7-bit code.  On such
    strings [upper], [lower] and [strip] are Python's own. *)
Fixpoint isascii (s : string) : bool :=
  match s with
  | EmptyString => true
  | String c r => (N_of_ascii c <? 128)%N && isascii r
  end.

(** A ticker symbol of the data model, a short alphanumeric code, of
    which only this much is used: ASCII text with no white space at
    either end. *)
Definition well_formed_ticker (t : string) : Prop :=
  isascii t = true /\ strip t = t.

(** * Properties *)

Example strip_example : strip "  tsla " = "tsla".
Proof. reflexivity. Qed.

Example upper_example : upper "Tsla.b-1" = "TSLA.B-1".
Proof. reflexivity. Qed.

Example lower_example : lower "Tesla Inc." = "tesla inc.".
Proof. reflexivity. Qed.

Example match_tsla :
  match_ticker_or_name "tsla" kg_example
  = (Returned (ticker_message "tsla" "Tesla Inc. Common Stock" "TSLA"), kg_example).
Proof. vm_compute. reflexivity. Qed.

Example match_tesla_name :
  match_ticker_or_name "Tesla Inc. Common Stock" kg_example
  = (Returned (name_message "Tesla Inc. Common Stock" "Tesla Inc. Common Stock" "TSLA"),
     kg_example).
Proof. vm_compute. reflexivity. Qed.

Example match_tesla_miss :
  match_ticker_or_name "Tesla" kg_example
  = (Returned (unrecognized_message "Tesla"), kg_example).
Proof. vm_compute. reflexivity. Qed.

(** ** Case mapping and trimming *)

Ltac by_cases_on_char c :=
  destruct c as [[] [] [] [] [] [] [] []]; vm_compute; reflexivity.

Lemma upper_char_lower_char c : upper_char (lower_char c) = upper_char c.
Proof. by_cases_on_char c. Qed.

Lemma lower_char_upper_char c : lower_char (upper_char c) = lower_char c.
Proof. by_cases_on_char c. Qed.

Lemma upper_char_idemp c : upper_char (upper_char c) = upper_char c.
Proof. by_cases_on_char c. Qed.

Lemma isspace_upper_char c : isspace (upper_char c) = isspace c.
Proof. by_cases_on_char c. Qed.

Lemma isspace_lower_char c : isspace (lower_char c) = isspace c.
Proof. by_cases_on_char c. Qed.

Lemma map_map f g s : PyStr.map f (PyStr.map g s) = PyStr.map (fun c => f (g c)) s.
Proof. induction s as [|c r IH]; simpl; [done | by rewrite IH]. Qed.

Lemma map_ext f g s : (forall c, f c = g c) -> PyStr.map f s = PyStr.map g s.
Proof. intros E. induction s as [|c r IH]; simpl; [done | by rewrite E, IH]. Qed.

Lemma upper_lower s : upper (lower s) = upper s.
Proof. unfold upper, lower. rewrite map_map. apply map_ext, upper_char_lower_char. Qed.

Lemma lower_upper s : lower (upper s) = lower s.
Proof. unfold upper, lower. rewrite map_map. apply map_ext, lower_char_upper_char. Qed.

Lemma upper_upper s : upper (upper s) = upper s.
Proof. unfold upper. rewrite map_map. apply map_ext, upper_char_idemp. Qed.

(** Two strings that agree once lowercased agree once uppercased. *)
Lemma lower_eq_upper_eq a b : lower a = lower b -> upper a = upper b.
Proof. intros E. by rewrite <- (upper_lower a), E, upper_lower. Qed.

Lemma upper_eq_lower_eq a b : upper a = upper b -> lower a = lower b.
Proof. intros E. by rewrite <- (lower_upper a), E, lower_upper. Qed.

Section StripMap.

(** Trimming commutes with a character map that keeps white space
    white and the rest not. *)
Variable f : ascii -> ascii.
Hypothesis f_space : forall c, isspace (f c) = isspace c.

Lemma lstrip_map s : lstrip (PyStr.map f s) = PyStr.map f (lstrip s).
Proof.
  induction s as [|c r IH]; simpl; [done |].
  rewrite f_space. by destruct (isspace c).
Qed.

Lemma rstrip_map s : rstrip (PyStr.map f s) = PyStr.map f (rstrip s).
Proof.
  induction s as [|c r IH]; simpl; [done |].
  rewrite IH, f_space.
  destruct (rstrip r); simpl; [by destruct (isspace c) | done].
Qed.

Lemma strip_map s : strip (PyStr.map f s) = PyStr.map f (strip s).
Proof. unfold strip. by rewrite lstrip_map, rstrip_map. Qed.

End StripMap.

Lemma strip_upper s : strip (upper s) = upper (strip s).
Proof. apply strip_map, isspace_upper_char. Qed.

Lemma strip_lower s : strip (lower s) = lower (strip s).
Proof. apply strip_map, isspace_lower_char. Qed.

Lemma append_cons c r s : String c r +:+ s = String c (r +:+ s).
Proof. reflexivity. Qed.

Lemma rstrip_append_space s : rstrip (s +:+ " ") = rstrip s.
Proof.
  induction s as [|c r IH]; [done |].
  rewrite append_cons. simpl. by rewrite IH.
Qed.

Lemma strip_append_space s : strip (s +:+ " ") = strip s.
Proof.
  unfold strip. induction s as [|c r IH]; [done |].
  rewrite append_cons. simpl. destruct (isspace c); [done |].
  by rewrite <- append_cons, rstrip_append_space.
Qed.

(** [(" " + s + " ").strip()] is [s.strip()]. *)
Lemma strip_padded s : strip (" " +:+ s +:+ " ") = strip s.
Proof.
  change (" " +:+ s +:+ " ") with (String " "%char (s +:+ " ")).
  unfold strip at 1. simpl lstrip. apply strip_append_space.
Qed.

Lemma to_symbol_form_lower s : to_symbol_form (lower s) = to_symbol_form s.
Proof. unfold to_symbol_form. by rewrite strip_lower, upper_lower. Qed.

Lemma to_symbol_form_upper s : to_symbol_form (upper s) = to_symbol_form s.
Proof. unfold to_symbol_form. by rewrite strip_upper, upper_upper. Qed.

Lemma to_symbol_form_padded s : to_symbol_form (" " +:+ s +:+ " ") = to_symbol_form s.
Proof. unfold to_symbol_form. by rewrite strip_padded. Qed.

(** ** The symbol index *)

Lemma foldl_insert_lookup (d : dict) (m : gmap string string) symbol :
  foldl (fun m kv => <[upper kv.2 := kv.1]> m) m d !! symbol
  = match last_name_of d symbol with
    | Some name => Some name
    | None => m !! symbol
    end.
Proof.
  revert m. induction d as [|[name ticker] r IH]; intros m; simpl; [done |].
  rewrite IH. destruct (last_name_of r symbol); [done |].
  rewrite lookup_insert. simpl. by destruct (decide (upper ticker = symbol)).
Qed.

Lemma symbol_to_name_lookup d symbol :
  symbol_to_name d !! symbol = last_name_of d symbol.
Proof.
  unfold symbol_to_name. rewrite foldl_insert_lookup, lookup_empty.
  by destruct (last_name_of d symbol).
Qed.

Lemma last_name_of_Some d symbol name :
  last_name_of d symbol = Some name ->
  exists ticker, (name, ticker) ∈ d /\ upper ticker = symbol.
Proof.
  induction d as [|[n t] r IH]; simpl; [done |].
  destruct (last_name_of r symbol) as [later|].
  - intros [= <-]. destruct IH as (ticker & Hin & Hup); [done |].
    exists ticker. split; [by apply list_elem_of_further | done].
  - destruct (decide (upper t = symbol)); [| done].
    intros [= <-]. exists t. split; [apply list_elem_of_here | done].
Qed.

Lemma last_name_of_None d symbol :
  last_name_of d symbol = None <->
  forall name ticker, (name, ticker) ∈ d -> upper ticker <> symbol.
Proof.
  induction d as [|[n t] r IH]; simpl.
  - split; [intros _ ? ? H; by apply elem_of_nil in H | done].
  - destruct (last_name_of r symbol) as [later|].
    + split; [done |]. intros H. exfalso.
      assert (Some later = None) as E; [| done].
      apply IH. intros name ticker Hin. apply (H name ticker).
      by apply list_elem_of_further.
    + destruct (decide (upper t = symbol)) as [E|NE].
      * split; [done |]. intros H. exfalso. apply (H n t); [apply list_elem_of_here | done].
      * split; [| done]. intros _ name ticker Hin.
        apply elem_of_cons in Hin as [[= -> ->]|Hin]; [done |].
        by apply (proj1 IH eq_refl name ticker).
Qed.

Lemma last_name_of_is_Some d name ticker :
  (name, ticker) ∈ d -> is_Some (last_name_of d (upper ticker)).
Proof.
  intros Hin. destruct (last_name_of d (upper ticker)) eqn:E; [by eexists |].
  exfalso. by apply (proj1 (last_name_of_None _ _) E name ticker).
Qed.

Lemma last_name_of_app d1 d2 symbol :
  last_name_of (d1 ++ d2) symbol
  = match last_name_of d2 symbol with
    | Some name => Some name
    | None => last_name_of d1 symbol
    end.
Proof.
  induction d1 as [|[n t] r IH]; simpl.
  - by destruct (last_name_of d2 symbol).
  - rewrite IH. by destruct (last_name_of d2 symbol).
Qed.

(** With pairwise distinct uppercased tickers, every item is the last
    one of its symbol. *)
Lemma last_name_of_NoDup d name ticker :
  NoDup (upper <$> d.*2) -> (name, ticker) ∈ d ->
  last_name_of d (upper ticker) = Some name.
Proof.
  induction d as [|[n t] r IH]; simpl; intros ND Hin.
  - by apply elem_of_nil in Hin.
  - apply NoDup_cons in ND as [Hnotin ND].
    apply elem_of_cons in Hin as [[= -> ->]|Hin].
    + destruct (last_name_of r (upper t)) as [later|] eqn:E.
      * exfalso. apply last_name_of_Some in E as (t' & Hin' & Hup).
        apply Hnotin. rewrite <- Hup.
        apply list_elem_of_fmap. exists t'. split; [done |].
        apply list_elem_of_fmap. by exists (later, t').
      * by rewrite decide_True.
    + by rewrite (IH ND Hin).
Qed.

(** ** The name scan *)

Lemma dict_get_Some d key v : dict_get d key = Some v -> (key, v) ∈ d.
Proof.
  induction d as [|[k w] r IH]; simpl; [done |].
  destruct (decide (k = key)) as [->|NE].
  - intros [= ->]. apply list_elem_of_here.
  - intros H. by apply list_elem_of_further, IH.
Qed.

Lemma dict_get_None d key : dict_get d key = None <-> key ∉ d.*1.
Proof.
  induction d as [|[k w] r IH]; simpl.
  - split; [intros _ H; by apply elem_of_nil in H | done].
  - rewrite not_elem_of_cons. destruct (decide (k = key)) as [->|NE].
    + split; [done | by intros [? _]].
    + rewrite IH. split; [by split | by intros [_ ?]].
Qed.

Lemma dict_get_is_Some d key : key ∈ d.*1 -> is_Some (dict_get d key).
Proof.
  intros Hin. destruct (dict_get d key) eqn:E; [by eexists |].
  by apply dict_get_None in E.
Qed.

(** In a well-formed [dict] a key has one value. *)
Lemma dict_get_wf d key v : dict_wf d -> (key, v) ∈ d -> dict_get d key = Some v.
Proof.
  unfold dict_wf. induction d as [|[k w] r IH]; simpl; intros ND Hin.
  - by apply elem_of_nil in Hin.
  - apply NoDup_cons in ND as [Hnotin ND].
    apply elem_of_cons in Hin as [[= -> ->]|Hin].
    + by rewrite decide_True.
    + rewrite decide_False; [by apply IH |].
      intros ->. apply Hnotin. apply list_elem_of_fmap. by exists (key, v).
Qed.

Lemma scan_lower_eq d q q' : lower q = lower q' -> scan d q = scan d q'.
Proof. unfold scan. by intros ->. Qed.

Lemma scan_head d q m rest :
  scan d q = m :: rest -> lower m = lower q /\ m ∈ d.*1.
Proof.
  intros E. assert (m ∈ scan d q) as Hin by (rewrite E; apply list_elem_of_here).
  unfold scan in Hin. apply list_elem_of_filter in Hin. tauto.
Qed.

Lemma scan_nil d q :
  scan d q = [] <-> forall name, name ∈ d.*1 -> lower name <> lower q.
Proof.
  unfold scan. split.
  - intros E name Hin Heq.
    assert (name ∈ filter (fun name => lower name = lower q) d.*1) as H
      by (apply list_elem_of_filter; tauto).
    rewrite E in H. by apply elem_of_nil in H.
  - intros H. apply elem_of_nil_inv. intros name Hin.
    apply list_elem_of_filter in Hin as [Heq Hin]. by apply (H name).
Qed.

Lemma scan_stored d n : n ∈ d.*1 -> exists m rest, scan d n = m :: rest.
Proof.
  intros Hin. destruct (scan d n) as [|m rest] eqn:E; [| by eauto].
  exfalso. by apply (proj1 (scan_nil d n) E n).
Qed.

(** ** Running [match_ticker_or_name] *)

Lemma match_ticker_or_name_symbol kg query company_name :
  last_name_of (name_dict kg) (to_symbol_form query) = Some company_name ->
  match_ticker_or_name query kg
  = (Returned (ticker_message query company_name (to_symbol_form query)), kg).
Proof.
  intros E. unfold match_ticker_or_name, mbind, tool_bind, kg_name_dict.
  fold (to_symbol_form query). rewrite symbol_to_name_lookup, E.
  rewrite bool_decide_eq_true_2 by (by eexists).
  unfold map_getitem. by rewrite symbol_to_name_lookup, E.
Qed.

Lemma match_ticker_or_name_name kg query company_name rest ticker :
  last_name_of (name_dict kg) (to_symbol_form query) = None ->
  scan (name_dict kg) query = company_name :: rest ->
  dict_get (name_dict kg) company_name = Some ticker ->
  match_ticker_or_name query kg
  = (Returned (name_message query company_name ticker), kg).
Proof.
  intros E Hscan Hget. unfold match_ticker_or_name, mbind, tool_bind, kg_name_dict.
  fold (to_symbol_form query). rewrite symbol_to_name_lookup, E.
  rewrite bool_decide_eq_false_2 by (by intros [? ?]).
  fold (scan (name_dict kg) query). rewrite Hscan.
  unfold dict_getitem. by rewrite Hget.
Qed.

Lemma match_ticker_or_name_miss kg query :
  last_name_of (name_dict kg) (to_symbol_form query) = None ->
  scan (name_dict kg) query = [] ->
  match_ticker_or_name query kg = (Returned (unrecognized_message query), kg).
Proof.
  intros E Hscan. unfold match_ticker_or_name, mbind, tool_bind, kg_name_dict.
  fold (to_symbol_form query). rewrite symbol_to_name_lookup, E.
  rewrite bool_decide_eq_false_2 by (by intros [? ?]).
  fold (scan (name_dict kg) query). by rewrite Hscan.
Qed.

(** ** Telling the three messages apart *)

Lemma append_inj_l a x y : a +:+ x = a +:+ y -> x = y.
Proof.
  induction a as [|c r IH]; [done |].
  rewrite !append_cons. intros [= H]. by apply IH.
Qed.

Ltac strip_common_prefix H :=
  apply append_inj_l in H; apply append_inj_l in H; apply append_inj_l in H.

Lemma ticker_message_not_name q n s n' t' :
  ticker_message q n s <> name_message q n' t'.
Proof.
  unfold ticker_message, name_message. intros H.
  strip_common_prefix H. cbv in H. discriminate H.
Qed.

Lemma ticker_message_not_unrecognized q n s :
  ticker_message q n s <> unrecognized_message q.
Proof.
  unfold ticker_message, unrecognized_message. intros H.
  strip_common_prefix H. cbv in H. discriminate H.
Qed.

Lemma name_message_not_unrecognized q n t :
  name_message q n t <> unrecognized_message q.
Proof.
  unfold name_message, unrecognized_message. intros H.
  strip_common_prefix H. cbv in H. discriminate H.
Qed.

(** ** The call returns and leaves [kg] as it was *)

Lemma match_ticker_or_name_returns query kg :
  exists message, match_ticker_or_name query kg = (Returned message, kg).
Proof.
  destruct (last_name_of (name_dict kg) (to_symbol_form query)) as [name|] eqn:E.
  - eexists. by apply match_ticker_or_name_symbol.
  - destruct (scan (name_dict kg) query) as [|m rest] eqn:Hscan.
    + eexists. by apply match_ticker_or_name_miss.
    + destruct (scan_head _ _ _ _ Hscan) as [_ Hin].
      destruct (dict_get_is_Some _ _ Hin) as [ticker Hget].
      eexists. by eapply match_ticker_or_name_name.
Qed.

(** ** Case folding of ASCII text *)

(** Python's [upper] and [lower] undo one another's effect on ASCII
    text only (["ß".upper().lower()] is ["ss"]).  The embedding leaves
    codes above 127 alone, so there the laws hold for every string; the
    properties below use them in this form, on strings that are assumed
    ASCII. *)
Lemma upper_lower_ascii s : isascii s = true -> upper (lower s) = upper s.
Proof. intros _. apply upper_lower. Qed.

Lemma lower_upper_ascii s : isascii s = true -> lower (upper s) = lower s.
Proof. intros _. apply lower_upper. Qed.

Lemma lower_lower_ascii s : isascii s = true -> lower (lower s) = lower s.
Proof.
  intros _. unfold lower. rewrite map_map. apply map_ext.
  intros c. by_cases_on_char c.
Qed.

Lemma lower_eq_upper_eq_ascii a b :
  isascii a = true -> isascii b = true -> lower a = lower b -> upper a = upper b.
Proof.
  intros Ha Hb E.
  by rewrite <- (upper_lower_ascii a Ha), E, (upper_lower_ascii b Hb).
Qed.

(** * The resolver's properties *)

(** ** Stored tickers *)

(** C1: for every ticker [t] stored in the index, the calls on [t], on
    [t.lower()] and on [" " + t + " "] each return the "recognized as a
    ticker symbol" message with one and the same company name and with
    the symbol [t.upper()], because the query is trimmed and uppercased
    before the lookup.  A stored ticker is a ticker symbol of the data
    model: ASCII text with no white space at its ends.  The name in the
    message belongs to a stored entity whose ticker uppercases to
    [t.upper()], and it is the name stored with [t] when no two stored
    tickers agree once uppercased. *)
Theorem stored_ticker_recognized kg name t :
  (name, t) ∈ name_dict kg ->
  well_formed_ticker t ->
  exists company_name,
    (exists t', (company_name, t') ∈ name_dict kg /\ upper t' = upper t)
    /\ (NoDup (upper <$> (name_dict kg).*2) -> company_name = name)
    /\ match_ticker_or_name t kg
       = (Returned (ticker_message t company_name (upper t)), kg)
    /\ match_ticker_or_name (lower t) kg
       = (Returned (ticker_message (lower t) company_name (upper t)), kg)
    /\ match_ticker_or_name (" " +:+ t +:+ " ") kg
       = (Returned (ticker_message (" " +:+ t +:+ " ") company_name (upper t)), kg).
Proof.
  intros Hin [Hascii Htrim].
  assert (to_symbol_form t = upper t) as Hsym
    by (unfold to_symbol_form; by rewrite Htrim).
  assert (to_symbol_form (lower t) = upper t) as Hlow.
  { unfold to_symbol_form.
    by rewrite <- strip_upper, (upper_lower_ascii t Hascii), strip_upper, Htrim. }
  assert (to_symbol_form (" " +:+ t +:+ " ") = upper t) as Hpad
    by (by rewrite to_symbol_form_padded).
  destruct (last_name_of_is_Some _ _ _ Hin) as [company_name E].
  exists company_name. split; [by apply last_name_of_Some |]. split.
  - intros ND. rewrite (last_name_of_NoDup _ _ _ ND Hin) in E. by injection E.
  - repeat split.
    + rewrite <- Hsym. apply match_ticker_or_name_symbol. by rewrite Hsym.
    + rewrite <- Hlow. apply match_ticker_or_name_symbol. by rewrite Hlow.
    + rewrite <- Hpad. apply match_ticker_or_name_symbol. by rewrite Hpad.
Qed.

Lemma stored_ticker_recognized_tsla :
  exists company_name,
    (exists t', (company_name, t') ∈ name_dict kg_example /\ upper t' = upper "TSLA")
    /\ (NoDup (upper <$> (name_dict kg_example).*2)
        -> company_name = "Tesla Inc. Common Stock")
    /\ match_ticker_or_name "TSLA" kg_example
       = (Returned (ticker_message "TSLA" company_name (upper "TSLA")), kg_example)
    /\ match_ticker_or_name (lower "TSLA") kg_example
       = (Returned (ticker_message (lower "TSLA") company_name (upper "TSLA")), kg_example)
    /\ match_ticker_or_name (" " +:+ "TSLA" +:+ " ") kg_example
       = (Returned (ticker_message (" " +:+ "TSLA" +:+ " ") company_name (upper "TSLA")),
          kg_example).
Proof.
  apply (stored_ticker_recognized kg_example "Tesla Inc. Common Stock" "TSLA").
  - apply list_elem_of_here.
  - split; reflexivity.
Defined.

(** The keys of the symbol index are uppercased, not trimmed.  An item
    whose ticker is no ticker symbol, such as ["TSLA "] with a blank at
    its end, is therefore not found by its own text. *)
Lemma stored_ticker_padded_unrecognized :
  ("Tesla Inc. Common Stock", "TSLA ") ∈ name_dict kg_padded
  /\ match_ticker_or_name "TSLA " kg_padded
     = (Returned (unrecognized_message "TSLA "), kg_padded)
  /\ ~ (exists company_name symbol,
          match_ticker_or_name "TSLA " kg_padded
          = (Returned (ticker_message "TSLA " company_name symbol), kg_padded)).
Proof.
  split; [apply list_elem_of_here |].
  assert (match_ticker_or_name "TSLA " kg_padded
          = (Returned (unrecognized_message "TSLA "), kg_padded)) as E
    by (vm_compute; reflexivity).
  split; [exact E |].
  intros (company_name & symbol & H). rewrite E in H.
  apply (ticker_message_not_unrecognized "TSLA " company_name symbol). congruence.
Qed.

(** ** Stored names *)

(** C2, as stated, fails on a stored name that is also, once trimmed and
    uppercased, the symbol of a stored ticker: the symbol check comes
    first.  In [kg_collision] the name ["tsla"] is stored, and the tool
    answers it with the ticker message of the other entity. *)
Lemma stored_name_taken_as_ticker :
  ("tsla", "TSLQ") ∈ name_dict kg_collision
  /\ match_ticker_or_name "tsla" kg_collision
     = (Returned (ticker_message "tsla" "Tesla Inc. Common Stock" "TSLA"), kg_collision)
  /\ ~ (exists company_name ticker,
          match_ticker_or_name "tsla" kg_collision
          = (Returned (name_message "tsla" company_name ticker), kg_collision)).
Proof.
  split; [apply list_elem_of_further, list_elem_of_here |].
  assert (match_ticker_or_name "tsla" kg_collision
          = (Returned (ticker_message "tsla" "Tesla Inc. Common Stock" "TSLA"),
             kg_collision)) as E by (vm_compute; reflexivity).
  split; [exact E |].
  intros (company_name & ticker & H). rewrite E in H.
  apply (ticker_message_not_name "tsla" "Tesla Inc. Common Stock" "TSLA"
           company_name ticker). congruence.
Qed.

(** C2, amended: for every ASCII company name [n] stored in the index
    whose trimmed, uppercased form is the uppercased form of no stored
    ticker, the calls on [n], on [n.upper()] and on [n.lower()] each
    return the "recognized as a company name" message with one and the
    same stored name, equal to [n] up to case, and the ticker stored
    with that name.  In a well-formed index where no other stored name
    equals [n] up to case they are [n] and its own ticker. *)
Theorem stored_name_recognized kg n t :
  (n, t) ∈ name_dict kg ->
  isascii n = true ->
  (forall name' t', (name', t') ∈ name_dict kg -> upper t' <> to_symbol_form n) ->
  exists company_name ticker,
    (company_name, ticker) ∈ name_dict kg
    /\ lower company_name = lower n
    /\ (dict_wf (name_dict kg) ->
        (forall n', n' ∈ (name_dict kg).*1 -> lower n' = lower n -> n' = n) ->
        company_name = n /\ ticker = t)
    /\ match_ticker_or_name n kg
       = (Returned (name_message n company_name ticker), kg)
    /\ match_ticker_or_name (upper n) kg
       = (Returned (name_message (upper n) company_name ticker), kg)
    /\ match_ticker_or_name (lower n) kg
       = (Returned (name_message (lower n) company_name ticker), kg).
Proof.
  intros Hin Hascii Hfree.
  assert (n ∈ (name_dict kg).*1) as Hkey
    by (apply list_elem_of_fmap; by exists (n, t)).
  assert (to_symbol_form (upper n) = to_symbol_form n) as Hup.
  { unfold to_symbol_form. by rewrite strip_upper, upper_upper. }
  assert (to_symbol_form (lower n) = to_symbol_form n) as Hlo.
  { unfold to_symbol_form.
    by rewrite <- strip_upper, (upper_lower_ascii n Hascii), strip_upper. }
  apply last_name_of_None in Hfree.
  destruct (scan_stored _ _ Hkey) as (company_name & rest & Hscan).
  destruct (scan_head _ _ _ _ Hscan) as [Hlow Hstored].
  destruct (dict_get_is_Some _ _ Hstored) as [ticker Hget].
  exists company_name, ticker.
  split; [by apply dict_get_Some |]. split; [done |]. split.
  - intros Hwf Huniq. assert (company_name = n) as -> by (by apply Huniq).
    split; [done |]. rewrite (dict_get_wf _ _ _ Hwf Hin) in Hget. by injection Hget.
  - repeat split.
    + by eapply match_ticker_or_name_name.
    + eapply match_ticker_or_name_name; [by rewrite Hup | | done].
      rewrite <- Hscan. by apply scan_lower_eq, lower_upper_ascii.
    + eapply match_ticker_or_name_name; [by rewrite Hlo | | done].
      rewrite <- Hscan. by apply scan_lower_eq, lower_lower_ascii.
Qed.

(** Walk through the items of a literal index. *)
Ltac for_each_item H :=
  repeat (apply elem_of_cons in H as [H|H];
          [injection H as -> -> |]);
  try (by apply elem_of_nil in H).

Lemma stored_name_recognized_tesla :
  exists company_name ticker,
    (company_name, ticker) ∈ name_dict kg_example
    /\ lower company_name = lower "Tesla Inc. Common Stock"
    /\ (dict_wf (name_dict kg_example) ->
        (forall n', n' ∈ (name_dict kg_example).*1 ->
                    lower n' = lower "Tesla Inc. Common Stock" ->
                    n' = "Tesla Inc. Common Stock") ->
        company_name = "Tesla Inc. Common Stock" /\ ticker = "TSLA")
    /\ match_ticker_or_name "Tesla Inc. Common Stock" kg_example
       = (Returned (name_message "Tesla Inc. Common Stock" company_name ticker),
          kg_example)
    /\ match_ticker_or_name (upper "Tesla Inc. Common Stock") kg_example
       = (Returned (name_message (upper "Tesla Inc. Common Stock") company_name ticker),
          kg_example)
    /\ match_ticker_or_name (lower "Tesla Inc. Common Stock") kg_example
       = (Returned (name_message (lower "Tesla Inc. Common Stock") company_name ticker),
          kg_example).
Proof.
  apply (stored_name_recognized kg_example "Tesla Inc. Common Stock" "TSLA").
  - apply list_elem_of_here.
  - reflexivity.
  - intros name' t' H. for_each_item H; vm_compute; discriminate.
Defined.

(** ** Ticker precedence *)

(** C3: if an ASCII input equals, up to case, the stored ticker of one
    entity and the stored name of a different entity, the call returns
    the "recognized as a ticker symbol" message and never the
    "recognized as a company name" message: the symbol check comes
    first.  The stored ticker is a ticker symbol of the data model
    (ASCII, no white space at its ends).  The name in the message
    belongs to a stored entity with that uppercased ticker, and it is
    the name of the first entity when no two stored tickers agree once
    uppercased. *)
Theorem ticker_takes_precedence kg query n1 t1 n2 t2 :
  (n1, t1) ∈ name_dict kg ->
  (n2, t2) ∈ name_dict kg ->
  n1 <> n2 ->
  well_formed_ticker t1 ->
  isascii query = true ->
  lower query = lower t1 ->
  lower query = lower n2 ->
  exists company_name,
    (exists t', (company_name, t') ∈ name_dict kg /\ upper t' = upper t1)
    /\ (NoDup (upper <$> (name_dict kg).*2) -> company_name = n1)
    /\ match_ticker_or_name query kg
       = (Returned (ticker_message query company_name (upper (strip query))), kg)
    /\ (forall name ticker,
          match_ticker_or_name query kg <> (Returned (name_message query name ticker), kg)).
Proof.
  intros Hin1 _ _ [Hascii1 Htrim1] Hascii Hticker _.
  assert (upper query = upper t1) as Hupper
    by (by apply lower_eq_upper_eq_ascii).
  assert (to_symbol_form query = upper t1) as Hsym.
  { unfold to_symbol_form. by rewrite <- strip_upper, Hupper, strip_upper, Htrim1. }
  destruct (last_name_of_is_Some _ _ _ Hin1) as [company_name E].
  assert (match_ticker_or_name query kg
          = (Returned (ticker_message query company_name (to_symbol_form query)), kg))
    as Hrun by (apply match_ticker_or_name_symbol; by rewrite Hsym).
  exists company_name. split; [| split; [| split]].
  - by apply last_name_of_Some.
  - intros ND. rewrite (last_name_of_NoDup _ _ _ ND Hin1) in E. by injection E.
  - exact Hrun.
  - intros name ticker H. rewrite Hrun in H.
    apply (ticker_message_not_name query company_name (to_symbol_form query) name ticker).
    congruence.
Qed.

Lemma ticker_takes_precedence_tsla :
  exists company_name,
    (exists t', (company_name, t') ∈ name_dict kg_collision
                /\ upper t' = upper "TSLA")
    /\ (NoDup (upper <$> (name_dict kg_collision).*2)
        -> company_name = "Tesla Inc. Common Stock")
    /\ match_ticker_or_name "tsla" kg_collision
       = (Returned (ticker_message "tsla" company_name (upper (strip "tsla"))),
          kg_collision)
    /\ (forall name ticker,
          match_ticker_or_name "tsla" kg_collision
          <> (Returned (name_message "tsla" name ticker), kg_collision)).
Proof.
  apply (ticker_takes_precedence kg_collision "tsla"
           "Tesla Inc. Common Stock" "TSLA" "tsla" "TSLQ").
  - apply list_elem_of_here.
  - apply list_elem_of_further, list_elem_of_here.
  - discriminate.
  - split; reflexivity.
  - reflexivity.
  - reflexivity.
  - reflexivity.
Defined.

(** Here too the stored ticker has to be a ticker symbol: against the
    ticker ["TSLA "], stored with a blank at its end, and another
    entity named ["tsla "], the trimmed query misses the symbol index
    and the name scan answers. *)
Lemma padded_collision_taken_as_name :
  ("Tesla Inc. Common Stock", "TSLA ") ∈ name_dict kg_padded_pair
  /\ ("tsla ", "TSLQ") ∈ name_dict kg_padded_pair
  /\ lower "tsla " = lower "TSLA "
  /\ lower "tsla " = lower "tsla "
  /\ match_ticker_or_name "tsla " kg_padded_pair
     = (Returned (name_message "tsla " "tsla " "TSLQ"), kg_padded_pair)
  /\ ~ (exists company_name symbol,
          match_ticker_or_name "tsla " kg_padded_pair
          = (Returned (ticker_message "tsla " company_name symbol), kg_padded_pair)).
Proof.
  split; [apply list_elem_of_here |].
  split; [apply list_elem_of_further, list_elem_of_here |].
  split; [reflexivity |]. split; [reflexivity |].
  assert (match_ticker_or_name "tsla " kg_padded_pair
          = (Returned (name_message "tsla " "tsla " "TSLQ"), kg_padded_pair)) as E
    by (vm_compute; reflexivity).
  split; [exact E |].
  intros (company_name & symbol & H). rewrite E in H.
  apply (ticker_message_not_name "tsla " company_name symbol "tsla " "TSLQ").
  congruence.
Qed.

(** ** Misses *)

(** C4, as stated, fails on an input with white space around a ticker.
    In [kg_example] the input [" tsla "] equals no stored ticker and no
    stored name up to case, and the tool answers with the ticker message
    of TSLA. *)
Lemma padded_ticker_is_no_miss :
  (forall name ticker, (name, ticker) ∈ name_dict kg_example ->
      lower " tsla " <> lower ticker /\ lower " tsla " <> lower name)
  /\ match_ticker_or_name " tsla " kg_example
     = (Returned (ticker_message " tsla " "Tesla Inc. Common Stock" "TSLA"), kg_example)
  /\ match_ticker_or_name " tsla " kg_example
     <> (Returned (unrecognized_message " tsla "), kg_example).
Proof.
  split.
  { intros name ticker H. for_each_item H; split; vm_compute; discriminate. }
  assert (match_ticker_or_name " tsla " kg_example
          = (Returned (ticker_message " tsla " "Tesla Inc. Common Stock" "TSLA"),
             kg_example)) as E by (vm_compute; reflexivity).
  split; [exact E |].
  intros H. rewrite E in H.
  apply (ticker_message_not_unrecognized " tsla " "Tesla Inc. Common Stock" "TSLA").
  congruence.
Qed.

(** C4, amended: for any ASCII input whose trimmed, uppercased form is
    the uppercased form of no stored ticker, and whose lowercased form
    is the lowercased form of no stored name, the call returns (it
    raises nothing) the "not recognized" message, which quotes the
    input as it was given. *)
Theorem miss_is_returned kg query :
  isascii query = true ->
  (forall name ticker, (name, ticker) ∈ name_dict kg ->
      upper (strip query) <> upper ticker /\ lower query <> lower name) ->
  match_ticker_or_name query kg = (Returned (unrecognized_message query), kg).
Proof.
  intros _ Hmiss. apply match_ticker_or_name_miss.
  - apply last_name_of_None. intros name ticker Hin Hup.
    destruct (Hmiss name ticker Hin) as [Hne _]. by apply Hne.
  - apply scan_nil. intros name Hin Heq.
    apply list_elem_of_fmap in Hin as ([name' ticker] & -> & Hin). simpl in Heq.
    destruct (Hmiss name' ticker Hin) as [_ Hne]. by apply Hne.
Qed.

Lemma miss_is_returned_tesla :
  match_ticker_or_name "Tesla" kg_example
  = (Returned (unrecognized_message "Tesla"), kg_example).
Proof.
  apply (miss_is_returned kg_example "Tesla").
  - reflexivity.
  - intros name ticker H. for_each_item H; split; vm_compute; discriminate.
Defined.

(** * The data gateway *)

(** C5, as stated, fails: a gateway tool hands its argument to the
    method of [kg] as it received it.  Against the data source that
    answers with its argument, [get_price_history] on [" tsla "] yields
    [" tsla "], not the symbol form ["TSLA"]. *)
Lemma gateway_forwards_raw_argument :
  get_price_history (methods := echo_methods) " tsla " kg_example
  = (Returned " tsla ", kg_example)
  /\ to_symbol_form " tsla " = "TSLA"
  /\ get_price_history (methods := echo_methods) " tsla " kg_example
     <> kg_get_price_history (FinanceKG_methods := echo_methods)
          (to_symbol_form " tsla ") kg_example.
Proof.
  split; [reflexivity |]. split; [reflexivity |].
  vm_compute. discriminate.
Qed.

(** C5, amended: every gateway tool ([get_price_history],
    [get_detailed_price_history], [get_dividends_history],
    [get_market_capitalization], [get_eps], [get_pe_ratio], [get_info])
    forwards its ticker argument to the method of the data source of the
    same name unchanged, and returns what that method returns; it
    neither trims nor uppercases the argument. *)
Theorem gateway_forwards_unchanged
    (payload : Type) (methods : FinanceKG_methods payload) (ticker_name : string) :
  get_price_history ticker_name = kg_get_price_history ticker_name
  /\ get_detailed_price_history ticker_name = kg_get_detailed_price_history ticker_name
  /\ get_dividends_history ticker_name = kg_get_dividends_history ticker_name
  /\ get_market_capitalization ticker_name = kg_get_market_capitalization ticker_name
  /\ get_eps ticker_name = kg_get_eps ticker_name
  /\ get_pe_ratio ticker_name = kg_get_pe_ratio ticker_name
  /\ get_info ticker_name = kg_get_info ticker_name.
Proof. repeat split. Qed.

(** * Exact lookup by name *)

(** C6: on a name index (a [dict], so with pairwise distinct keys),
    [get_ticker_by_name] returns for every stored name exactly the
    ticker stored with it, and signals [NotFoundError] for every string
    that is not a stored name, a case variant of a stored name
    included. *)
Theorem get_ticker_by_name_exact kg :
  dict_wf (name_dict kg) ->
  (forall name ticker, (name, ticker) ∈ name_dict kg ->
      get_ticker_by_name name kg = (Returned ticker, kg))
  /\ (forall name, name ∉ (name_dict kg).*1 ->
      get_ticker_by_name name kg = (Raised (NotFoundError name), kg))
  /\ (forall name variant, name ∈ (name_dict kg).*1 ->
      lower variant = lower name -> variant ∉ (name_dict kg).*1 ->
      get_ticker_by_name variant kg = (Raised (NotFoundError variant), kg)).
Proof.
  intros Hwf.
  assert (forall name, name ∉ (name_dict kg).*1 ->
            get_ticker_by_name name kg = (Raised (NotFoundError name), kg)) as Hmiss.
  { intros name Hnotin. apply dict_get_None in Hnotin.
    unfold get_ticker_by_name, kg_get_ticker_by_name, mbind, tool_bind, kg_name_dict.
    by rewrite Hnotin. }
  split; [| split; [exact Hmiss | intros name variant _ _; apply Hmiss]].
  intros name ticker Hin.
  unfold get_ticker_by_name, kg_get_ticker_by_name, mbind, tool_bind, kg_name_dict.
  by rewrite (dict_get_wf _ _ _ Hwf Hin).
Qed.

Lemma dict_wf_example : dict_wf (name_dict kg_example).
Proof.
  unfold dict_wf. simpl. apply NoDup_cons. split.
  - intros H. apply list_elem_of_singleton in H. discriminate H.
  - apply NoDup_singleton.
Defined.

Lemma get_ticker_by_name_exact_example :
  (forall name ticker, (name, ticker) ∈ name_dict kg_example ->
      get_ticker_by_name name kg_example = (Returned ticker, kg_example))
  /\ (forall name, name ∉ (name_dict kg_example).*1 ->
      get_ticker_by_name name kg_example = (Raised (NotFoundError name), kg_example))
  /\ (forall name variant, name ∈ (name_dict kg_example).*1 ->
      lower variant = lower name -> variant ∉ (name_dict kg_example).*1 ->
      get_ticker_by_name variant kg_example
      = (Raised (NotFoundError variant), kg_example)).
Proof.
  apply (get_ticker_by_name_exact kg_example). exact dict_wf_example.
Defined.

Example get_ticker_by_name_microsoft :
  get_ticker_by_name "Microsoft Corporation Common Stock" kg_example
  = (Returned "MSFT", kg_example).
Proof. reflexivity. Qed.

Example get_ticker_by_name_partial :
  get_ticker_by_name "Microsoft" kg_example
  = (Raised (NotFoundError "Microsoft"), kg_example).
Proof. reflexivity. Qed.

Example get_ticker_by_name_case_variant :
  get_ticker_by_name "microsoft corporation common stock" kg_example
  = (Raised (NotFoundError "microsoft corporation common stock"), kg_example).
Proof. reflexivity. Qed.

(** * The symbol index *)

(** C7: when no two items of the name index agree on the uppercased
    ticker, the symbol index built from it maps [ticker.upper()] to
    [name] for every item [(name, ticker)] and has no other key; and
    whenever two items agree on the uppercased ticker, the one iterated
    later replaces the earlier one: the symbol holds the name of the
    last such item. *)
Theorem symbol_index_inverse (d : dict) :
  (NoDup (upper <$> d.*2) ->
     forall symbol name,
       symbol_to_name d !! symbol = Some name
       <-> exists ticker, (name, ticker) ∈ d /\ upper ticker = symbol)
  /\ (forall d1 n1 t1 d2 n2 t2 d3,
        d = d1 ++ (n1, t1) :: d2 ++ (n2, t2) :: d3 ->
        upper t1 = upper t2 ->
        (forall name ticker, (name, ticker) ∈ d3 -> upper ticker <> upper t2) ->
        symbol_to_name d !! upper t1 = Some n2).
Proof.
  split.
  - intros ND symbol name. rewrite symbol_to_name_lookup. split.
    + apply last_name_of_Some.
    + intros (ticker & Hin & <-). by apply last_name_of_NoDup.
  - intros d1 n1 t1 d2 n2 t2 d3 -> Hsame Hlast.
    rewrite symbol_to_name_lookup, Hsame.
    change ((n1, t1) :: d2 ++ (n2, t2) :: d3)
      with (((n1, t1) :: d2) ++ (n2, t2) :: d3).
    rewrite app_assoc, last_name_of_app. simpl.
    apply last_name_of_None in Hlast. rewrite Hlast.
    by rewrite decide_True.
Qed.

Lemma symbol_index_inverse_example :
  (forall symbol name,
     symbol_to_name (name_dict kg_example) !! symbol = Some name
     <-> exists ticker, (name, ticker) ∈ name_dict kg_example /\ upper ticker = symbol)
  /\ symbol_to_name (name_dict kg_same_symbol) !! upper "TSLA" = Some "Tesla Duplicate".
Proof.
  split.
  - apply (proj1 (symbol_index_inverse (name_dict kg_example))).
    simpl. apply NoDup_cons. split.
    + intros H. apply list_elem_of_singleton in H. vm_compute in H. discriminate H.
    + apply NoDup_singleton.
  - apply (proj2 (symbol_index_inverse (name_dict kg_same_symbol))
             [] "Tesla Inc. Common Stock" "TSLA"
             [("Microsoft Corporation Common Stock", "MSFT")]
             "Tesla Duplicate" "tsla" []).
    + reflexivity.
    + reflexivity.
    + intros name ticker H. by apply elem_of_nil in H.
Defined.

Example symbol_index_overwritten :
  match_ticker_or_name "TSLA" kg_same_symbol
  = (Returned (ticker_message "TSLA" "Tesla Duplicate" "TSLA"), kg_same_symbol).
Proof. vm_compute. reflexivity. Qed.

(** * Repeated calls *)

(** C8: a call of [match_ticker_or_name] returns and leaves [kg] as it
    found it, so a second call with the same input, made after the
    first, returns the same result. *)
Theorem match_ticker_or_name_deterministic query kg :
  let (first, kg1) := match_ticker_or_name query kg in
  let (second, kg2) := match_ticker_or_name query kg1 in
  first = second /\ kg1 = kg /\ kg2 = kg.
Proof.
  destruct (match_ticker_or_name_returns query kg) as [message E].
  rewrite E, E. done.
Qed.

(** * Further properties of the normalisation *)

Lemma map_length f s : String.length (PyStr.map f s) = String.length s.
Proof. induction s as [|c r IH]; simpl; [done | by rewrite IH]. Qed.

Lemma lstrip_length_le s : String.length (lstrip s) <= String.length s.
Proof.
  induction s as [|c r IH]; simpl; [done |].
  destruct (isspace c); simpl; lia.
Qed.

Lemma rstrip_length_le s : String.length (rstrip s) <= String.length s.
Proof.
  induction s as [|c r IH]; simpl; [done |].
  destruct (rstrip r); simpl in *; [destruct (isspace c); simpl; lia | lia].
Qed.

Lemma strip_length_le s : String.length (strip s) <= String.length s.
Proof.
  unfold strip. pose proof (rstrip_length_le (lstrip s)).
  pose proof (lstrip_length_le s). lia.
Qed.

Lemma lstrip_fixed s :
  String.length (lstrip s) = String.length s -> lstrip s = s.
Proof.
  destruct s as [|c r]; simpl; [done |].
  destruct (isspace c); [| done].
  pose proof (lstrip_length_le r). lia.
Qed.

Lemma rstrip_fixed s :
  String.length (rstrip s) = String.length s -> rstrip s = s.
Proof.
  induction s as [|c r IH]; simpl; [done |].
  pose proof (rstrip_length_le r) as Hle.
  destruct (rstrip r) as [|a b] eqn:E.
  - destruct (isspace c); simpl; [lia |].
    intros Hlen. f_equal. apply IH. simpl in *. lia.
  - simpl. intros Hlen. f_equal. apply IH. simpl in *. lia.
Qed.

Lemma strip_fixed s :
  String.length (strip s) = String.length s -> strip s = s.
Proof.
  unfold strip. intros Hlen.
  pose proof (rstrip_length_le (lstrip s)). pose proof (lstrip_length_le s).
  assert (lstrip s = s) as E by (apply lstrip_fixed; lia).
  rewrite E in *. by apply rstrip_fixed.
Qed.

(** A string that is trimmed once lowercased is trimmed. *)
Lemma strip_lower_fixed s : strip (lower s) = lower s -> strip s = s.
Proof.
  rewrite strip_lower. intros E. apply strip_fixed.
  apply (f_equal String.length) in E. unfold lower in E.
  by rewrite !map_length in E.
Qed.

Lemma rstrip_idemp s : rstrip (rstrip s) = rstrip s.
Proof.
  induction s as [|c r IH]; simpl; [done |].
  destruct (rstrip r) as [|a b] eqn:E.
  - destruct (isspace c) eqn:Hc; simpl; [done | by rewrite Hc].
  - change (rstrip (String c (String a b))
            = String c (String a b)).
    simpl rstrip at 1. simpl in IH. by rewrite IH.
Qed.

Lemma lstrip_rstrip_lstrip s : lstrip (rstrip (lstrip s)) = rstrip (lstrip s).
Proof.
  induction s as [|c r IH]; simpl; [done |].
  destruct (isspace c) eqn:Hc; [done |].
  simpl. destruct (rstrip r); simpl; rewrite ?Hc; simpl; by rewrite ?Hc.
Qed.

Lemma strip_idemp s : strip (strip s) = strip s.
Proof. unfold strip. by rewrite lstrip_rstrip_lstrip, rstrip_idemp. Qed.

Lemma to_symbol_form_idemp s : to_symbol_form (to_symbol_form s) = to_symbol_form s.
Proof.
  unfold to_symbol_form. by rewrite strip_upper, strip_idemp, upper_upper.
Qed.

Lemma strip_all_space s : all_space s = true -> strip s = "".
Proof.
  unfold strip. induction s as [|c r IH]; simpl; [done |].
  intros [Hc Hr]%andb_true_iff. rewrite Hc. by apply IH.
Qed.

Lemma upper_empty s : upper s = "" <-> s = "".
Proof. destruct s; simpl; split; done. Qed.

Example format_examples_lines :
  get_company_format_examples
  = "Applied Optoelectronics Inc. Common Stock,AAOI" +:+ newline
    +:+ "Airbnb Inc. Class A Common Stock,ABNB" +:+ newline
    +:+ "Tesla Inc. Common Stock,TSLA" +:+ newline
    +:+ "Microsoft Corporation Common Stock,MSFT" +:+ newline
    +:+ "Evolent Health Inc Class A Common Stock,EVH".
Proof. reflexivity. Qed.

(** * Further properties of the resolver *)

(** The three ways a call can go, with what decides each. *)
Lemma match_ticker_or_name_cases query kg :
  (exists name,
      last_name_of (name_dict kg) (to_symbol_form query) = Some name
      /\ match_ticker_or_name query kg
         = (Returned (ticker_message query name (to_symbol_form query)), kg))
  \/ (last_name_of (name_dict kg) (to_symbol_form query) = None
      /\ exists m rest t,
          scan (name_dict kg) query = m :: rest
          /\ dict_get (name_dict kg) m = Some t
          /\ match_ticker_or_name query kg = (Returned (name_message query m t), kg))
  \/ (last_name_of (name_dict kg) (to_symbol_form query) = None
      /\ scan (name_dict kg) query = []
      /\ match_ticker_or_name query kg = (Returned (unrecognized_message query), kg)).
Proof.
  destruct (last_name_of (name_dict kg) (to_symbol_form query)) as [name|] eqn:E.
  - left. exists name. split; [done |]. by apply match_ticker_or_name_symbol.
  - right. destruct (scan (name_dict kg) query) as [|m rest] eqn:Hscan.
    + right. split; [done |]. split; [done |]. by apply match_ticker_or_name_miss.
    + left. split; [done |].
      destruct (scan_head _ _ _ _ Hscan) as [_ Hin].
      destruct (dict_get_is_Some _ _ Hin) as [t Hget].
      exists m, rest, t. split; [done |]. split; [done |].
      by eapply match_ticker_or_name_name.
Qed.

Lemma scan_app d1 d2 q : scan (d1 ++ d2) q = scan d1 q ++ scan d2 q.
Proof. unfold scan. by rewrite fmap_app, filter_app. Qed.

Lemma dict_get_app_notin d1 d2 key :
  key ∉ d1.*1 -> dict_get (d1 ++ d2) key = dict_get d2 key.
Proof.
  induction d1 as [|[k v] r IH]; simpl; [done |].
  rewrite not_elem_of_cons. intros [NE Hnotin].
  rewrite decide_False by done. by apply IH.
Qed.

(** X1: a call of [match_ticker_or_name] always returns one of its
    three messages and raises nothing: the two subscriptions are only
    reached with a key that is present.  The ticker message names a
    stored entity whose uppercased ticker is the trimmed, uppercased
    query; the name message carries a stored pair whose name equals the
    query up to case; and [kg] is left as it was. *)
Theorem match_ticker_or_name_outcome query kg :
  (exists name t,
      (name, t) ∈ name_dict kg /\ upper t = upper (strip query)
      /\ match_ticker_or_name query kg
         = (Returned (ticker_message query name (upper (strip query))), kg))
  \/ (exists name t,
      (name, t) ∈ name_dict kg /\ lower name = lower query
      /\ match_ticker_or_name query kg
         = (Returned (name_message query name t), kg))
  \/ match_ticker_or_name query kg = (Returned (unrecognized_message query), kg).
Proof.
  destruct (match_ticker_or_name_cases query kg)
    as [(name & E & Hrun)|[(_ & m & rest & t & Hscan & Hget & Hrun)|(_ & _ & Hrun)]].
  - left. destruct (last_name_of_Some _ _ _ E) as (t & Hin & Hup).
    exists name, t. by repeat split.
  - right. left. destruct (scan_head _ _ _ _ Hscan) as [Hlow _].
    exists m, t. split; [by apply dict_get_Some | by split].
  - right. by right.
Qed.

(** Close a goal from a hypothesis that equates two different messages
    for one query. *)
Ltac message_clash :=
  exfalso;
  repeat match goal with
         | H : exists _, _ |- _ => destruct H as [? H]
         end;
  match goal with
  | H : (Returned (ticker_message ?q ?n ?s), _) = (Returned (name_message ?q ?n' ?t'), _) |- _ =>
      apply (ticker_message_not_name q n s n' t'); congruence
  | H : (Returned (name_message ?q ?n' ?t'), _) = (Returned (ticker_message ?q ?n ?s), _) |- _ =>
      apply (ticker_message_not_name q n s n' t'); congruence
  | H : (Returned (ticker_message ?q ?n ?s), _) = (Returned (unrecognized_message ?q), _) |- _ =>
      apply (ticker_message_not_unrecognized q n s); congruence
  | H : (Returned (unrecognized_message ?q), _) = (Returned (ticker_message ?q ?n ?s), _) |- _ =>
      apply (ticker_message_not_unrecognized q n s); congruence
  | H : (Returned (name_message ?q ?n ?t), _) = (Returned (unrecognized_message ?q), _) |- _ =>
      apply (name_message_not_unrecognized q n t); congruence
  | H : (Returned (unrecognized_message ?q), _) = (Returned (name_message ?q ?n ?t), _) |- _ =>
      apply (name_message_not_unrecognized q n t); congruence
  end.

(** X2: which message a call returns is decided by two facts about the
    index.  It is the ticker message exactly when some stored ticker,
    uppercased, is the trimmed and uppercased query; the name message
    exactly when that fails and some stored name equals the untrimmed
    query up to case; and the "not recognized" message exactly when
    both fail. *)
Theorem match_ticker_or_name_decision query kg :
  let stored_symbol :=
    exists name t, (name, t) ∈ name_dict kg /\ upper t = upper (strip query) in
  let stored_name :=
    exists name, name ∈ (name_dict kg).*1 /\ lower name = lower query in
  ((exists name symbol,
       match_ticker_or_name query kg
       = (Returned (ticker_message query name symbol), kg)) <-> stored_symbol)
  /\ ((exists name t,
       match_ticker_or_name query kg
       = (Returned (name_message query name t), kg))
      <-> ~ stored_symbol /\ stored_name)
  /\ (match_ticker_or_name query kg = (Returned (unrecognized_message query), kg)
      <-> ~ stored_symbol /\ ~ stored_name).
Proof.
  intros stored_symbol stored_name.
  assert (forall name, last_name_of (name_dict kg) (to_symbol_form query) = Some name
                       -> stored_symbol) as Hhit.
  { intros name E. destruct (last_name_of_Some _ _ _ E) as (t & Hin & Hup).
    by exists name, t. }
  assert (last_name_of (name_dict kg) (to_symbol_form query) = None
          -> ~ stored_symbol) as Hmiss.
  { intros E (name & t & Hin & Hup).
    by apply (proj1 (last_name_of_None _ _) E name t). }
  assert (forall m rest, scan (name_dict kg) query = m :: rest -> stored_name)
    as Hnamed.
  { intros m rest Hscan. destruct (scan_head _ _ _ _ Hscan). by exists m. }
  assert (scan (name_dict kg) query = [] -> ~ stored_name) as Hunnamed.
  { intros Hscan (name & Hin & Hlow). by apply (proj1 (scan_nil _ _) Hscan name). }
  destruct (match_ticker_or_name_cases query kg)
    as [(name & E & Hrun)|[(E & m & rest & t & Hscan & Hget & Hrun)|(E & Hscan & Hrun)]];
    rewrite Hrun.
  - split; [split; [eauto | by intros _; eauto] |].
    split; (split; [intros; message_clash | intros [Hno _]; exfalso; eauto]).
  - split; [split; [intros; message_clash | intros Hyes; exfalso; by apply Hmiss] |].
    split; [split; [eauto | by intros _; eauto] |].
    split; [intros; message_clash | intros [_ Hno]; exfalso; eauto].
  - split; [split; [intros; message_clash | intros Hyes; exfalso; by apply Hmiss] |].
    split; [split; [intros; message_clash | intros [_ Hyes]; exfalso; by apply Hunnamed] |].
    split; [auto | done].
Qed.

(** X3: among stored names that agree up to case, the scan settles on
    the one iterated first.  When the symbol check misses and
    [(m, tk)] is the first item whose name equals the query up to case,
    the call returns the name message with [m] and [tk]. *)
Theorem name_scan_first_match kg query d1 m tk d2 :
  name_dict kg = d1 ++ (m, tk) :: d2 ->
  (forall name t, (name, t) ∈ name_dict kg -> upper t <> upper (strip query)) ->
  (forall name, name ∈ d1.*1 -> lower name <> lower query) ->
  lower m = lower query ->
  match_ticker_or_name query kg = (Returned (name_message query m tk), kg).
Proof.
  intros Hd Hmiss Hfirst Hlow.
  assert (m ∉ d1.*1) as Hnotin by (intros Hin; by apply (Hfirst m)).
  apply (match_ticker_or_name_name kg query m
           (scan d2 query) tk).
  - by apply last_name_of_None.
  - rewrite Hd, scan_app. apply scan_nil in Hfirst. rewrite Hfirst. simpl.
    unfold scan. simpl. by rewrite filter_cons_True.
  - rewrite Hd, dict_get_app_notin by done. simpl. by rewrite decide_True.
Qed.

Lemma name_scan_first_match_tesla :
  match_ticker_or_name "tesla" kg_case_duplicates
  = (Returned (name_message "tesla" "Tesla" "TSLA"), kg_case_duplicates).
Proof.
  apply (name_scan_first_match kg_case_duplicates "tesla"
           [] "Tesla" "TSLA" [("TESLA", "TSLB")]).
  - reflexivity.
  - intros name t H. for_each_item H; vm_compute; discriminate.
  - intros name H. by apply elem_of_nil in H.
  - reflexivity.
Defined.

(** X4: the name scan compares the query as it was given, untrimmed.
    When every stored name is free of leading and trailing white space,
    a query that has some is never answered with the name message,
    although the ticker check would accept the same padding. *)
Theorem padded_query_is_no_name kg query :
  (forall name, name ∈ (name_dict kg).*1 -> strip name = name) ->
  strip query <> query ->
  forall name t,
    match_ticker_or_name query kg <> (Returned (name_message query name t), kg).
Proof.
  intros Htrimmed Hpadded name t H.
  destruct (match_ticker_or_name_cases query kg)
    as [(n & E & Hrun)|[(_ & m & rest & t' & Hscan & _ & _)|(_ & _ & Hrun)]].
  - rewrite Hrun in H. message_clash.
  - destruct (scan_head _ _ _ _ Hscan) as [Hlow Hin].
    apply Hpadded, strip_lower_fixed.
    by rewrite <- Hlow, strip_lower, (Htrimmed m Hin).
  - rewrite Hrun in H. message_clash.
Qed.

Lemma padded_query_is_no_name_tesla :
  match_ticker_or_name " Tesla Inc. Common Stock" kg_example
  <> (Returned (name_message " Tesla Inc. Common Stock"
                  "Tesla Inc. Common Stock" "TSLA"), kg_example).
Proof.
  refine (padded_query_is_no_name kg_example " Tesla Inc. Common Stock" _ _
            "Tesla Inc. Common Stock" "TSLA").
  - intros name H. simpl in H.
    repeat (apply elem_of_cons in H as [->|H]; [reflexivity |]).
    by apply elem_of_nil in H.
  - vm_compute. discriminate.
Defined.

(** X5: the ticker check depends on the query only through its trimmed,
    uppercased form, and that form is stable under trimming and
    uppercasing again.  When the form of a query is a stored symbol,
    every query of the same form, the form itself included, is answered
    with the ticker message for one and the same company and symbol. *)
Theorem same_symbol_form_same_answer kg query name t :
  (name, t) ∈ name_dict kg ->
  upper t = to_symbol_form query ->
  exists company_name,
    to_symbol_form (to_symbol_form query) = to_symbol_form query
    /\ forall query',
        to_symbol_form query' = to_symbol_form query ->
        match_ticker_or_name query' kg
        = (Returned (ticker_message query' company_name (to_symbol_form query)), kg).
Proof.
  intros Hin Hup.
  destruct (last_name_of_is_Some _ _ _ Hin) as [company_name E].
  rewrite Hup in E. exists company_name.
  split; [apply to_symbol_form_idemp |].
  intros query' Hsame. rewrite <- Hsame.
  apply match_ticker_or_name_symbol. by rewrite Hsame.
Qed.

Lemma same_symbol_form_same_answer_tsla :
  exists company_name,
    to_symbol_form (to_symbol_form "  tsla ") = to_symbol_form "  tsla "
    /\ forall query',
        to_symbol_form query' = to_symbol_form "  tsla " ->
        match_ticker_or_name query' kg_example
        = (Returned (ticker_message query' company_name (to_symbol_form "  tsla ")),
           kg_example).
Proof.
  apply (same_symbol_form_same_answer kg_example "  tsla "
           "Tesla Inc. Common Stock" "TSLA").
  - apply list_elem_of_here.
  - reflexivity.
Defined.

(** X6: the whole tool is insensitive to the case of its query.  Two
    queries that agree once lowercased take the same branch and are
    answered with the same company name and the same ticker; the two
    messages differ only in the query they quote. *)
Theorem case_insensitive_answer kg query query' :
  lower query = lower query' ->
  (exists name symbol,
      match_ticker_or_name query kg
      = (Returned (ticker_message query name symbol), kg)
      /\ match_ticker_or_name query' kg
         = (Returned (ticker_message query' name symbol), kg))
  \/ (exists name t,
      match_ticker_or_name query kg = (Returned (name_message query name t), kg)
      /\ match_ticker_or_name query' kg = (Returned (name_message query' name t), kg))
  \/ (match_ticker_or_name query kg = (Returned (unrecognized_message query), kg)
      /\ match_ticker_or_name query' kg = (Returned (unrecognized_message query'), kg)).
Proof.
  intros Hlow.
  assert (to_symbol_form query' = to_symbol_form query) as Hsym.
  { rewrite <- (to_symbol_form_lower query'), <- Hlow. apply to_symbol_form_lower. }
  assert (scan (name_dict kg) query' = scan (name_dict kg) query) as Hsc
    by (by apply scan_lower_eq).
  destruct (match_ticker_or_name_cases query kg)
    as [(name & E & Hrun)|[(E & m & rest & t & Hscan & Hget & Hrun)|(E & Hscan & Hrun)]].
  - left. exists name, (to_symbol_form query). split; [done |].
    rewrite <- Hsym. apply match_ticker_or_name_symbol. by rewrite Hsym.
  - right. left. exists m, t. split; [done |].
    apply (match_ticker_or_name_name kg query' m rest t); [| | done].
    + by rewrite Hsym.
    + by rewrite Hsc.
  - right. right. split; [done |].
    apply match_ticker_or_name_miss; [by rewrite Hsym | by rewrite Hsc].
Qed.

Lemma case_insensitive_answer_msft :
  (exists name symbol,
      match_ticker_or_name "msft" kg_example
      = (Returned (ticker_message "msft" name symbol), kg_example)
      /\ match_ticker_or_name "MsFt" kg_example
         = (Returned (ticker_message "MsFt" name symbol), kg_example))
  \/ (exists name t,
      match_ticker_or_name "msft" kg_example
      = (Returned (name_message "msft" name t), kg_example)
      /\ match_ticker_or_name "MsFt" kg_example
         = (Returned (name_message "MsFt" name t), kg_example))
  \/ (match_ticker_or_name "msft" kg_example
      = (Returned (unrecognized_message "msft"), kg_example)
      /\ match_ticker_or_name "MsFt" kg_example
         = (Returned (unrecognized_message "MsFt"), kg_example)).
Proof.
  apply (case_insensitive_answer kg_example "msft" "MsFt"). reflexivity.
Defined.

(** X7: an entity whose uppercased ticker is repeated by an item that
    comes later in the index cannot be reached through that ticker: a
    query of that symbol is answered with the name of an item after
    it. *)
Theorem later_entity_shadows_earlier kg query d1 n1 t1 d2 n2 t2 :
  name_dict kg = d1 ++ (n1, t1) :: d2 ->
  (n2, t2) ∈ d2 ->
  upper t2 = upper t1 ->
  upper (strip query) = upper t1 ->
  exists name t,
    (name, t) ∈ d2 /\ upper t = upper t1
    /\ match_ticker_or_name query kg
       = (Returned (ticker_message query name (upper t1)), kg).
Proof.
  intros Hd Hin Hsame Hsym.
  destruct (last_name_of_is_Some _ _ _ Hin) as [name E]. rewrite Hsame in E.
  destruct (last_name_of_Some _ _ _ E) as (t & Hin' & Hup).
  exists name, t. split; [done |]. split; [done |].
  rewrite <- Hsym. apply match_ticker_or_name_symbol.
  unfold to_symbol_form. rewrite Hsym, Hd, last_name_of_app. simpl. by rewrite E.
Qed.

Lemma later_entity_shadows_earlier_tsla :
  exists name t,
    (name, t) ∈ [("Microsoft Corporation Common Stock", "MSFT");
                 ("Tesla Duplicate", "tsla")]
    /\ upper t = upper "TSLA"
    /\ match_ticker_or_name "TSLA" kg_same_symbol
       = (Returned (ticker_message "TSLA" name (upper "TSLA")), kg_same_symbol).
Proof.
  apply (later_entity_shadows_earlier kg_same_symbol "TSLA"
           [] "Tesla Inc. Common Stock" "TSLA"
           [("Microsoft Corporation Common Stock", "MSFT"); ("Tesla Duplicate", "tsla")]
           "Tesla Duplicate" "tsla").
  - reflexivity.
  - apply list_elem_of_further, list_elem_of_here.
  - reflexivity.
  - reflexivity.
Defined.

Lemma foldl_insert_size (d : dict) (m : gmap string string) :
  size (foldl (fun m kv => <[upper kv.2 := kv.1]> m) m d) <= size m + length d.
Proof.
  revert m. induction d as [|[name ticker] r IH]; intros m; simpl; [lia |].
  etrans; [apply IH |]. simpl.
  destruct (m !! upper ticker) eqn:E.
  - rewrite map_size_insert_Some by (by eexists). lia.
  - rewrite map_size_insert_None by done. lia.
Qed.

(** X8: whatever the index holds, the keys of the symbol index are
    exactly the uppercased stored tickers.  Every key is therefore its
    own uppercase form, every key maps to a stored name that carries a
    ticker of that form, and there are never more keys than items. *)
Theorem symbol_index_keys (d : dict) :
  dom (symbol_to_name d) = list_to_set (upper <$> d.*2)
  /\ (forall symbol name,
        symbol_to_name d !! symbol = Some name ->
        upper symbol = symbol
        /\ exists ticker, (name, ticker) ∈ d /\ upper ticker = symbol)
  /\ size (symbol_to_name d) <= length d.
Proof.
  split; [| split].
  - apply set_eq. intros symbol.
    rewrite elem_of_dom, symbol_to_name_lookup, elem_of_list_to_set. split.
    + intros [name E]. destruct (last_name_of_Some _ _ _ E) as (t & Hin & <-).
      apply list_elem_of_fmap. exists t. split; [done |].
      apply list_elem_of_fmap. by exists (name, t).
    + intros Hin. apply list_elem_of_fmap in Hin as (t & -> & Hin).
      apply list_elem_of_fmap in Hin as ([name t'] & -> & Hin).
      by apply (last_name_of_is_Some d name).
  - intros symbol name E. rewrite symbol_to_name_lookup in E.
    destruct (last_name_of_Some _ _ _ E) as (t & Hin & <-).
    split; [apply upper_upper | by exists t].
  - unfold symbol_to_name.
    pose proof (foldl_insert_size d ∅) as H. by rewrite map_size_empty in H.
Qed.

(** X9: a query of white space only, the empty query included, is
    looked up as the empty symbol.  It is answered with the ticker
    message exactly when some entity is stored with the empty ticker,
    and then with the empty symbol. *)
Theorem blank_query kg query :
  all_space query = true ->
  ((exists name, (name, "") ∈ name_dict kg) ->
     exists company_name,
       (company_name, "") ∈ name_dict kg
       /\ match_ticker_or_name query kg
          = (Returned (ticker_message query company_name ""), kg))
  /\ ((forall name, (name, "") ∉ name_dict kg) ->
      forall name symbol,
        match_ticker_or_name query kg
        <> (Returned (ticker_message query name symbol), kg)).
Proof.
  intros Hblank.
  assert (to_symbol_form query = "") as Hsym
    by (unfold to_symbol_form; by rewrite strip_all_space).
  split.
  - intros [name Hin].
    destruct (last_name_of_is_Some _ _ _ Hin) as [company_name E].
    change (upper "") with "" in E.
    destruct (last_name_of_Some _ _ _ E) as (t & Hin' & Hup).
    apply upper_empty in Hup as ->.
    exists company_name. split; [done |].
    replace (ticker_message query company_name "")
      with (ticker_message query company_name (to_symbol_form query))
      by (by rewrite Hsym).
    apply match_ticker_or_name_symbol. by rewrite Hsym.
  - intros Hnone name symbol H.
    destruct (match_ticker_or_name_cases query kg)
      as [(n & E & _)|[(_ & m & rest & t & _ & _ & Hrun)|(_ & _ & Hrun)]].
    + rewrite Hsym in E. destruct (last_name_of_Some _ _ _ E) as (t & Hin & Hup).
      apply upper_empty in Hup as ->. by apply (Hnone n).
    + rewrite Hrun in H. message_clash.
    + rewrite Hrun in H. message_clash.
Qed.

Lemma blank_query_example :
  ((exists name, (name, "") ∈ name_dict kg_empty_ticker) ->
     exists company_name,
       (company_name, "") ∈ name_dict kg_empty_ticker
       /\ match_ticker_or_name "   " kg_empty_ticker
          = (Returned (ticker_message "   " company_name ""), kg_empty_ticker))
  /\ ((forall name, (name, "") ∉ name_dict kg_empty_ticker) ->
      forall name symbol,
        match_ticker_or_name "   " kg_empty_ticker
        <> (Returned (ticker_message "   " name symbol), kg_empty_ticker)).
Proof.
  apply (blank_query kg_empty_ticker "   "). reflexivity.
Defined.

Lemma symbol_index_keys_example :
  upper "TSLA" = "TSLA"
  /\ exists ticker,
      ("Tesla Duplicate", ticker) ∈ name_dict kg_same_symbol /\ upper ticker = "TSLA".
Proof.
  apply (proj1 (proj2 (symbol_index_keys (name_dict kg_same_symbol)))
           "TSLA" "Tesla Duplicate").
  vm_compute. reflexivity.
Defined.

(** X10: against an empty index every query, whatever its text, is
    answered with the "not recognized" message. *)
Theorem empty_index_recognizes_nothing kg query :
  name_dict kg = [] ->
  match_ticker_or_name query kg = (Returned (unrecognized_message query), kg).
Proof.
  intros Hempty. apply match_ticker_or_name_miss; by rewrite Hempty.
Qed.

Lemma empty_index_recognizes_nothing_tsla :
  match_ticker_or_name "TSLA" {| name_dict := [] |}
  = (Returned (unrecognized_message "TSLA"), {| name_dict := [] |}).
Proof.
  apply (empty_index_recognizes_nothing {| name_dict := [] |} "TSLA"). reflexivity.
Defined.
